(** * react-tform: the field composition algebra

    A shallow embedding of the form-field core of react-tform
    ([field.ts] and [errors.ts]) together with the small parts of its
    dependencies (ramda lenses, value-or-factory) that the core calls,
    and of the functions of the state and hook layer ([state.ts],
    [hooks.ts], the automatic submission hook) that are functions of
    what they read.

    Conventions of the embedding.
    - A JavaScript callback returning [void] is modelled by the effect it
      performs, an element of an abstract type [Eff]; a callback taking an
      argument is a function into [Eff].  Sequencing of two statements is
      the operation [andThen] of the class [Sequence].
    - A value that is either a plain value or a function of the previous
      value ([ValueOrFactory]) is a two-constructor sum.
    - Records ([FormError], [FieldInput], [OperatorWithPath], the field
      object) are Rocq records, one module per TypeScript name space.
    - JavaScript objects used as records are finite maps from property
      names to values, so that equality is structural and independent of
      the order of the keys, as ramda's [equals] is. *)

From Stdlib Require Import ZArith.
From stdpp Require Import base option list strings gmap.

Set Default Proof Using "Type".

(* ===================================================================== *)
(** * JavaScript values *)
(* ===================================================================== *)

(** The values a form holds: [undefined], [null], booleans, (integral)
    numbers and records.  Property names range over own properties; names
    inherited from a prototype are outside the model. *)
#[warnings="-register-all"]
Inductive JsValue : Type :=
| VUndefined
| VNull
| VBool (b : bool)
| VNumber (n : Z)
| VObject (o : gmap string JsValue).

(** [a ?? b]: the right operand replaces [null] and [undefined] only. *)
Definition nullish_coalesce (a b : JsValue) : JsValue :=
  match a with
  | VUndefined | VNull => b
  | _ => a
  end.

Infix "??" := nullish_coalesce (at level 45, left associativity).

Definition is_nullish (v : JsValue) : bool :=
  match v with
  | VUndefined | VNull => true
  | _ => false
  end.

(* ===================================================================== *)
(** * value-or-factory *)
(* ===================================================================== *)

(** [ValueOrFactory<T, [A]>]: a [T], or a function producing one from an
    [A]. *)
Inductive ValueOrFactory (T A : Type) : Type :=
| Value (v : T)
| Factory (f : A → T).

Arguments Value {T A} v.
Arguments Factory {T A} f.

(** [callOrGet(x, a)]: call a factory on the argument, return a value as
    it is. *)
Definition callOrGet {T A} (x : ValueOrFactory T A) (a : A) : T :=
  match x with
  | Value v => v
  | Factory f => f a
  end.

(* ===================================================================== *)
(** * ramda: lenses *)
(* ===================================================================== *)

Module Ramda.

(** [Lens<S, A>], built by [lens(getter, setter)]. *)
Record Lens (S A : Type) : Type := lens {
  getter : S → A;
  setter : A → S → S;
}.
Arguments lens {S A} getter setter.
Arguments getter {S A} _ _.
Arguments setter {S A} _ _ _.

(** [view(lens, s)] *)
Definition view {S A} (l : Lens S A) (s : S) : A := getter l s.

(** [set(lens, a, s)] *)
Definition set {S A} (l : Lens S A) (a : A) (s : S) : S := setter l a s.

Definition identity {A} (x : A) : A := x.

(* The functions below follow ramda 0.29 and later, the versions that
   export [isNotNil], which the sources import. *)

(** [prop(k, obj)]: [undefined] on [null] and [undefined], else
    [obj[k]], which is [undefined] when the property is absent.  This is
    the read of own properties: for a name of a member of
    [Object.prototype] that the record does not have itself, JavaScript
    reads the inherited member, which the model does not. *)
Definition prop (k : string) (obj : JsValue) : JsValue :=
  match obj with
  | VObject o => default VUndefined (o !! k)
  | _ => VUndefined
  end.

(** [assoc(k, v, obj)]: a shallow copy of the own enumerable properties
    of [obj] (none for a primitive) with [k] set to [v].  The name
    ["__proto__"] is outside the model: JavaScript's [result[k] = v] then
    sets the prototype and adds no own property. *)
Definition assoc (k : string) (v : JsValue) (obj : JsValue) : JsValue :=
  match obj with
  | VObject o => VObject (<[k := v]> o)
  | _ => VObject {[k := v]}
  end.

(** [lensProp(k) = lens(prop(k), assoc(k))] *)
Definition lensProp (k : string) : Lens JsValue JsValue :=
  lens (prop k) (assoc k).

(** [defaultTo(d, v)]: [d] when [v] is [null] or [undefined] (or NaN,
    which the integral numbers of the model do not contain). *)
Definition defaultTo (d v : JsValue) : JsValue :=
  if is_nullish v then d else v.

End Ramda.

(* ===================================================================== *)
(** * errors.ts *)
(* ===================================================================== *)

(** A path segment: strings represent properties, numbers represent array
    indexes. *)
Inductive Segment : Type :=
| Key (s : string)
| Index (n : Z).

Global Instance Segment_eq_dec : EqDecision Segment.
Proof. solve_decision. Defined.

(** [FormErrorPath = readonly (string | number)[]] *)
Abbreviation FormErrorPath := (list Segment).

Module FormError.

Record t : Type := mk {
  message : string;
  path : FormErrorPath;
  temporary : option bool;
}.

Global Instance eq_dec : EqDecision t.
Proof. solve_decision. Defined.

(** [{ ...error, path: p }] *)
Definition with_path (error : t) (p : FormErrorPath) : t :=
  {| message := message error; path := p; temporary := temporary error |}.

End FormError.

(** [FormErrors = readonly FormError[]] *)
Abbreviation FormErrors := (list FormError.t).

(** [errors.filter(_ => equals(_.path.slice(0, path.length), path))
           .map(error => ({ ...error, path: error.path.slice(path.length) }))] *)
Definition descendErrors (errors : FormErrors) (path : FormErrorPath) : FormErrors :=
  (λ error, FormError.with_path error (drop (length path) (FormError.path error)))
    <$> filter (λ e, take (length path) (FormError.path e) = path) errors.

(* ===================================================================== *)
(** * Effects of the callbacks *)
(* ===================================================================== *)

(** [a; b]: perform [a], then [b]. *)
Class Sequence (Eff : Type) := andThen : Eff → Eff → Eff.
Global Hint Mode Sequence ! : typeclass_instances.

(* ===================================================================== *)
(** * internal.ts: the field input *)
(* ===================================================================== *)

Module FieldInput.

(** Modelled from the spec: the interface [FieldInput<T>] of
    [internal.ts], which is not among the sources; its members are the
    ones the spec lists for the field input contract (and the ones the
    constructor of [FormFieldImpl] reads). *)
Record t (Eff T : Type) : Type := mk {
  path : FormErrorPath;
  value : T;
  disabled : bool;
  setValue : ValueOrFactory T T → Eff;
  setErrors : ValueOrFactory FormErrors FormErrors → Eff;
  errors : option FormErrors;
  blur : Eff;
  commit : Eff;
  focus : Eff;
}.
Arguments mk {Eff T}.
Arguments path {Eff T}.
Arguments value {Eff T}.
Arguments disabled {Eff T}.
Arguments setValue {Eff T}.
Arguments setErrors {Eff T}.
Arguments errors {Eff T}.
Arguments blur {Eff T}.
Arguments commit {Eff T}.
Arguments focus {Eff T}.

End FieldInput.

(* ===================================================================== *)
(** * field.ts: namespace FormField *)
(* ===================================================================== *)

Module FormField.

(** [type Operator<I, O> = Lens<I, O>] *)
Abbreviation Operator := Ramda.Lens.

(** [interface OperatorWithPath<I, O>]; the path is optional. *)
Record OperatorWithPath (I O : Type) : Type := mkOperatorWithPath {
  operator : Operator I O;
  path : option FormErrorPath;
}.
Arguments mkOperatorWithPath {I O}.
Arguments operator {I O}.
Arguments path {I O}.

(** The argument of [pipe]:
    [OperatorWithPath<T, R> | Operator<T, R>]. *)
Inductive PipeArgument (I O : Type) : Type :=
| Bare (l : Operator I O)
| WithPath (o : OperatorWithPath I O).
Arguments Bare {I O}.
Arguments WithPath {I O}.

Definition prop (key : string) : OperatorWithPath JsValue JsValue :=
  {| operator := Ramda.lensProp key; path := Some [Key key] |}.

(* [at(index)] reads an element of an array through [lensIndex]; no method
   of the field calls it (the source has [doAt] commented out) and the
   values of the model have no arrays, so it is left out. *)

Definition transform {I O} (to : I → O) (back : O → I) : Operator I O :=
  Ramda.lens to (λ o _, back o).

Definition narrow {I} (func : I → I) : Operator I I :=
  transform func Ramda.identity.

Definition or (def : JsValue) : Operator JsValue JsValue :=
  narrow (Ramda.defaultTo def).

End FormField.

(* ===================================================================== *)
(** * field.ts: class FormFieldImpl *)
(* ===================================================================== *)

(** The argument of [toggle]. *)
Inductive Status : Type := focused | blurred.

Module FormFieldImpl.

(** The object built by the constructor.  [input] is the constructor's
    parameter property [from]; the bound methods [pipe], [prop],
    [transform], [narrow] and [or] are the functions [doPipe], [doProp],
    [doTransform], [doNarrow] and [doOr] below applied to the object. *)
Record t (Eff T : Type) : Type := mk {
  input : FieldInput.t Eff T;
  path : FormErrorPath;
  disabled : bool;
  value : T;
  setValue : ValueOrFactory T T → Eff;
  setValueAndCommit : T → Eff;
  blur : Eff;
  commit : Eff;
  focus : Eff;
  toggle : Status → Eff;
  errors : option FormErrors;
  selfErrors : option FormErrors;
  hasErrors : bool;
  hasSelfErrors : bool;
  setErrors : ValueOrFactory FormErrors FormErrors → Eff;
}.
Arguments mk {Eff T}.
Arguments input {Eff T}.
Arguments path {Eff T}.
Arguments disabled {Eff T}.
Arguments value {Eff T}.
Arguments setValue {Eff T}.
Arguments setValueAndCommit {Eff T}.
Arguments blur {Eff T}.
Arguments commit {Eff T}.
Arguments focus {Eff T}.
Arguments toggle {Eff T}.
Arguments errors {Eff T}.
Arguments selfErrors {Eff T}.
Arguments hasErrors {Eff T}.
Arguments hasSelfErrors {Eff T}.
Arguments setErrors {Eff T}.

Section methods.
Context {Eff : Type} `{!Sequence Eff}.

(** [static from(input)]: the (private) constructor. *)
Definition from {T} (from : FieldInput.t Eff T) : t Eff T :=
  let selfErrors :=
    filter (λ e, length (FormError.path e) = 0) <$> FieldInput.errors from in
  {| input := from;
     path := FieldInput.path from;
     disabled := FieldInput.disabled from;
     value := FieldInput.value from;
     setValue := FieldInput.setValue from;
     blur := FieldInput.blur from;
     commit := FieldInput.commit from;
     focus := FieldInput.focus from;
     toggle := λ status,
       match status with
       | focused => FieldInput.focus from
       | blurred => FieldInput.blur from
       end;
     setValueAndCommit := λ value,
       andThen (FieldInput.setValue from (Value value)) (FieldInput.commit from);
     errors := FieldInput.errors from;
     selfErrors := selfErrors;
     hasErrors := bool_decide (0 < default 0 (length <$> FieldInput.errors from));
     hasSelfErrors := bool_decide (0 < default 0 (length <$> selfErrors));
     setErrors := FieldInput.setErrors from |}.

(** The map of [setErrors] in [doPipe]:
    [newErrors.map(error => ({ ...error, path: [...path, ...error.path] }))] *)
Definition ascendErrors (newErrors : FormErrors) (path : FormErrorPath) : FormErrors :=
  (λ error, FormError.with_path error (path ++ FormError.path error)) <$> newErrors.

(** [doPipe] on the bundle it normalises its argument to.  The field
    input's path is never [undefined], so the test in
    [[...this.path, ...this.path !== undefined ? this.path : []]]
    takes its first branch. *)
Definition doPipeBundle {T N} (this : t Eff T)
    (operator : FormField.OperatorWithPath T N) : t Eff N :=
  let newValue := Ramda.view (FormField.operator operator) (value this) in
  let newSetValue := λ newValue : ValueOrFactory N N,
    setValue this (Factory (λ prev,
      Ramda.set (FormField.operator operator)
        (callOrGet newValue (Ramda.view (FormField.operator operator) prev))
        (value this))) in
  let errors :=
    descendErrors (default [] (errors this)) (default [] (FormField.path operator)) in
  let setErrors := λ errors : ValueOrFactory FormErrors FormErrors,
    setErrors this (Factory (λ prevErrors,
      let newErrors :=
        callOrGet errors
          (descendErrors prevErrors (default [] (FormField.path operator))) in
      ascendErrors newErrors (default [] (FormField.path operator)))) in
  from {| FieldInput.path := path this ++ path this;
          FieldInput.value := newValue;
          FieldInput.setValue := newSetValue;
          FieldInput.blur := blur this;
          FieldInput.commit := commit this;
          FieldInput.focus := focus this;
          FieldInput.disabled := disabled this;
          FieldInput.errors := Some errors;
          FieldInput.setErrors := setErrors |}.

(** [doPipe]: a bare lens (a function) is first wrapped as
    [{ operator }], without a path. *)
Definition doPipe {T N} (this : t Eff T)
    (operator : FormField.PipeArgument T N) : t Eff N :=
  match operator with
  | FormField.Bare l =>
      doPipeBundle this {| FormField.operator := l; FormField.path := None |}
  | FormField.WithPath o => doPipeBundle this o
  end.

Definition doProp (this : t Eff JsValue) (key : string) : t Eff JsValue :=
  doPipe this (FormField.WithPath (FormField.prop key)).

Definition doTransform {T N} (this : t Eff T) (to : T → N) (back : N → T) : t Eff N :=
  doPipe this (FormField.Bare (FormField.transform to back)).

Definition doNarrow {T} (this : t Eff T) (to : T → T) : t Eff T :=
  doPipe this (FormField.Bare (FormField.narrow to)).

Definition doOr (this : t Eff JsValue) (defaultValue : JsValue) : t Eff JsValue :=
  doNarrow this (λ value, value ?? defaultValue).

End methods.

End FormFieldImpl.

(* ===================================================================== *)
(** * The state cell behind a root input *)
(* ===================================================================== *)

Module Store.

(** Modelled from the spec: the setters of a root input, which the form
    layer (not among the sources) builds on the state setter of the
    host framework.  An update is applied to whatever the state is when
    it is applied: a plain value replaces it, an updater is called on
    it.  The effect of a callback is the function it applies to the
    state. *)
Definition apply {S} (next : ValueOrFactory S S) : S → S := callOrGet next.

Global Instance sequence {S} : Sequence (S → S) := λ a b s, b (a s).

(** A root input over a state cell that holds the form's value. *)
Definition valueInput (value : JsValue) : FieldInput.t (JsValue → JsValue) JsValue :=
  {| FieldInput.path := [];
     FieldInput.value := value;
     FieldInput.disabled := false;
     FieldInput.setValue := apply;
     FieldInput.setErrors := λ _, id;
     FieldInput.errors := None;
     FieldInput.blur := id;
     FieldInput.commit := id;
     FieldInput.focus := id |}.

(** A root input over a state cell that holds the form's errors. *)
Definition errorsInput {T} (value : T) (errors : FormErrors) :
    FieldInput.t (FormErrors → FormErrors) T :=
  {| FieldInput.path := [];
     FieldInput.value := value;
     FieldInput.disabled := false;
     FieldInput.setValue := λ _, id;
     FieldInput.setErrors := apply;
     FieldInput.errors := Some errors;
     FieldInput.blur := id;
     FieldInput.commit := id;
     FieldInput.focus := id |}.

End Store.

(* ===================================================================== *)
(** * Statements in the words of the specification *)
(* ===================================================================== *)

(** Element-wise removal of a prefix: [Some rest] when the path begins
    with the prefix, [None] otherwise. *)
Fixpoint stripPrefix (prefix path : FormErrorPath) : option FormErrorPath :=
  match prefix, path with
  | [], rest => Some rest
  | _ :: _, [] => None
  | p :: prefix', s :: path' =>
      if decide (p = s) then stripPrefix prefix' path' else None
  end.

(** "Retain only errors whose path begins with the prefix; for each
    retained error, replace the path with the remainder." *)
Definition descendErrors_spec (errors : FormErrors) (prefix : FormErrorPath) : FormErrors :=
  omap (λ e, FormError.with_path e <$> stripPrefix prefix (FormError.path e)) errors.

(** The path segments a composition step contributes. *)
Definition stepPath {I O} (operator : FormField.PipeArgument I O) : FormErrorPath :=
  match operator with
  | FormField.Bare _ => []
  | FormField.WithPath o => default [] (FormField.path o)
  end.

(** The lens of a composition step. *)
Definition stepLens {I O} (operator : FormField.PipeArgument I O) : FormField.Operator I O :=
  match operator with
  | FormField.Bare l => l
  | FormField.WithPath o => FormField.operator o
  end.

(** A lens whose read after a write returns what was written. *)
Definition PutGet {S A} (l : Ramda.Lens S A) : Prop :=
  ∀ a s, Ramda.view l (Ramda.set l a s) = a.

(** A chain of composition steps over JavaScript values, root first. *)
Definition pipeAll {Eff} `{!Sequence Eff} (root : FormFieldImpl.t Eff JsValue)
    (steps : list (FormField.PipeArgument JsValue JsValue)) : FormFieldImpl.t Eff JsValue :=
  foldl FormFieldImpl.doPipe root steps.

(** The read of a chain of steps. *)
Definition viewAll (steps : list (FormField.PipeArgument JsValue JsValue))
    (v : JsValue) : JsValue :=
  foldl (λ v step, Ramda.view (stepLens step) v) v steps.

(** A lens over JavaScript values that reads back every value, neither
    [null] nor [undefined], that is written through it, and that writes
    such a value into a parent value that is neither. *)
Definition KeepsDefined (l : Ramda.Lens JsValue JsValue) : Prop :=
  ∀ a s, is_nullish a = false →
    Ramda.view l (Ramda.set l a s) = a ∧ is_nullish (Ramda.set l a s) = false.

(** Over a state cell, replacing through the field what it holds by a
    value that is neither [null] nor [undefined] sets what the read [g]
    of the field sees in the state to that value. *)
Definition TracksDefined (this : FormFieldImpl.t (JsValue → JsValue) JsValue)
    (g : JsValue → JsValue) : Prop :=
  ∀ (a s : JsValue), is_nullish a = false →
    g (FormFieldImpl.setValue this (Factory (λ _, a)) s) = a.

(** The names of the members of [Object.prototype].  On a record without
    an own property of such a name, [obj[k]] reads the inherited member,
    and [obj["__proto__"] = v] adds no own property; the model of [prop]
    and [assoc] covers the other names. *)
Definition objectPrototypeNames : list string :=
  ["__proto__"; "constructor"; "hasOwnProperty"; "isPrototypeOf";
   "propertyIsEnumerable"; "toLocaleString"; "toString"; "valueOf";
   "__defineGetter__"; "__defineSetter__"; "__lookupGetter__"; "__lookupSetter__"].

(** A value that, when it is a record, has no own property ["__proto__"]
    (one that [JSON.parse] or [Object.defineProperty] would have
    created): the copy [assoc] makes of a record that has one does not
    have it. *)
Definition noOwnProto (v : JsValue) : Prop :=
  match v with
  | VObject o => o !! "__proto__" = None
  | _ => True
  end.

(** The derived field has the triggers and the disabled flag of its
    parent. *)
Definition SameTriggers {Eff T N}
    (parent : FormFieldImpl.t Eff T) (derived : FormFieldImpl.t Eff N) : Prop :=
  FormFieldImpl.blur derived = FormFieldImpl.blur parent ∧
  FormFieldImpl.commit derived = FormFieldImpl.commit parent ∧
  FormFieldImpl.focus derived = FormFieldImpl.focus parent ∧
  FormFieldImpl.disabled derived = FormFieldImpl.disabled parent.

(** Over a state cell, a write through the field sets what the read [g]
    of the field sees in the state to the written value, an updater being
    called on what [g] sees in the state the update is applied to. *)
Definition Tracks {S T} (this : FormFieldImpl.t (S → S) T) (g : S → T) : Prop :=
  ∀ (next : ValueOrFactory T T) (s : S),
    g (FormFieldImpl.setValue this next s) = callOrGet next (g s).

(* ===================================================================== *)
(** * state.ts *)
(* ===================================================================== *)

Module FormInternalState.

(** [interface FormInternalState<T>] of [src/state.ts].  A [Date] is the
    number [getTime()] returns; [Ex] stands for the type [unknown] of
    [exception].  The copy of the file that comes with [field.ts] has the
    same members but [validateRequests]. *)
Record t (T Ex : Type) : Type := mk {
  value : T;
  initializedValue : T;
  errors : option FormErrors;
  submittedValue : option T;
  submitCount : Z;
  exception : option Ex;
  lastInitialized : Z;
  lastBlurred : option Z;
  lastChanged : option Z;
  lastCommitted : option Z;
  lastFocused : option Z;
  lastSubmitted : option Z;
  lastValidated : option Z;
  lastSubmitRequested : option Z;
  isSubmitting : bool;
  lastValidateRequested : option Z;
  validateRequests : Z;
  isValidating : bool;
}.
Arguments mk {T Ex}.
Arguments value {T Ex}.
Arguments initializedValue {T Ex}.
Arguments errors {T Ex}.
Arguments submittedValue {T Ex}.
Arguments submitCount {T Ex}.
Arguments exception {T Ex}.
Arguments lastInitialized {T Ex}.
Arguments lastBlurred {T Ex}.
Arguments lastChanged {T Ex}.
Arguments lastCommitted {T Ex}.
Arguments lastFocused {T Ex}.
Arguments lastSubmitted {T Ex}.
Arguments lastValidated {T Ex}.
Arguments lastSubmitRequested {T Ex}.
Arguments isSubmitting {T Ex}.
Arguments lastValidateRequested {T Ex}.
Arguments validateRequests {T Ex}.
Arguments isValidating {T Ex}.

End FormInternalState.

(** [date?.getTime() ?? 0] *)
Definition getTimeOr0 (date : option Z) : Z := default 0%Z date.

(** [errors.some(_ => _.temporary !== true)] *)
Definition someNotTemporary (errors : FormErrors) : bool :=
  existsb (λ e, bool_decide (FormError.temporary e ≠ Some true)) errors.

(** The constants [useFormState] of [src/state.ts] computes from the
    state on every render.  [isDirty] and [isDirtySinceSubmitted] are
    memoised on part of what they read and [initialValue] goes through a
    hook of [util.ts]; they are not functions of the state and are left
    out. *)
Module State.

Section state.
Context {T Ex : Type}.
Implicit Types state : FormInternalState.t T Ex.

(** [initialFormState(initialValue)], [now] being what [new Date()]
    gives. *)
Definition initialFormState (now : Z) (initialValue : T) : FormInternalState.t T Ex :=
  {| FormInternalState.lastInitialized := now;
     FormInternalState.initializedValue := initialValue;
     FormInternalState.value := initialValue;
     FormInternalState.submitCount := 0;
     FormInternalState.validateRequests := 0;
     FormInternalState.isSubmitting := false;
     FormInternalState.isValidating := false;
     FormInternalState.errors := None;
     FormInternalState.submittedValue := None;
     FormInternalState.exception := None;
     FormInternalState.lastBlurred := None;
     FormInternalState.lastChanged := None;
     FormInternalState.lastCommitted := None;
     FormInternalState.lastFocused := None;
     FormInternalState.lastSubmitted := None;
     FormInternalState.lastValidated := None;
     FormInternalState.lastSubmitRequested := None;
     FormInternalState.lastValidateRequested := None |}.

Definition isValidating state : bool :=
  bool_decide (0 < FormInternalState.validateRequests state)%Z.

Definition isValidationCurrent state : bool :=
  bool_decide (getTimeOr0 (FormInternalState.lastChanged state)
               < getTimeOr0 (FormInternalState.lastValidated state))%Z.

(** [!isValidationCurrent || state.errors === undefined ? undefined
      : state.errors.length !== 0] *)
Definition isInvalid state : option bool :=
  if negb (isValidationCurrent state) then None
  else match FormInternalState.errors state with
       | None => None
       | Some errors => Some (negb (bool_decide (length errors = 0)))
       end.

Definition isValid state : option bool :=
  if negb (isValidationCurrent state) then None
  else match FormInternalState.errors state with
       | None => None
       | Some errors => Some (bool_decide (length errors = 0))
       end.

(** [!(state.errors ?? []).some(_ => _.temporary !== true)] *)
Definition canSubmit state : bool :=
  negb (someNotTemporary (default [] (FormInternalState.errors state))).

Definition hasBeenSubmitted state : bool :=
  bool_decide (FormInternalState.lastSubmitted state ≠ None).

Definition hasBeenValidated state : bool :=
  bool_decide (FormInternalState.lastValidated state ≠ None).

Definition isFocused state : bool :=
  bool_decide (getTimeOr0 (FormInternalState.lastBlurred state)
               < getTimeOr0 (FormInternalState.lastFocused state))%Z.

Definition isBlurred state : bool :=
  bool_decide (getTimeOr0 (FormInternalState.lastFocused state)
               < getTimeOr0 (FormInternalState.lastBlurred state))%Z.

End state.

End State.

(** The constants of the copy of [state.ts] that comes with [field.ts],
    where they differ from the ones above. *)
Module StatePart001.

Section state.
Context {T Ex : Type}.
Implicit Types state : FormInternalState.t T Ex.

(** [state.errors === undefined ? undefined : state.errors.length !== 0] *)
Definition isInvalid state : option bool :=
  match FormInternalState.errors state with
  | None => None
  | Some errors => Some (negb (bool_decide (length errors = 0)))
  end.

Definition isValid state : option bool :=
  match FormInternalState.errors state with
  | None => None
  | Some errors => Some (bool_decide (length errors = 0))
  end.

(** [state.errors === undefined ? true
      : !state.errors.some(_ => _.temporary !== true)] *)
Definition canSubmit state : bool :=
  match FormInternalState.errors state with
  | None => true
  | Some errors => negb (someNotTemporary errors)
  end.

End state.

End StatePart001.

(* ===================================================================== *)
(** * hooks.ts *)
(* ===================================================================== *)

Module Hooks.

(** [type FormHook = keyof typeof FORM_HOOKS] *)
Inductive FormHook : Type :=
| blur | change | commit | focus | init
| afterSubmit | beforeSubmit | afterValidate | beforeValidate.

Global Instance FormHook_eq_dec : EqDecision FormHook.
Proof. solve_decision. Defined.

(** The table [FORM_HOOKS]: the time stamp a hook looks at. *)
Definition FORM_HOOKS {T Ex} (hook : FormHook) (context : FormInternalState.t T Ex) :
    option Z :=
  match hook with
  | blur => FormInternalState.lastBlurred context
  | change => FormInternalState.lastChanged context
  | commit => FormInternalState.lastCommitted context
  | focus => FormInternalState.lastFocused context
  | init => Some (FormInternalState.lastInitialized context)
  | afterSubmit => FormInternalState.lastSubmitted context
  | beforeSubmit => FormInternalState.lastSubmitRequested context
  | afterValidate => FormInternalState.lastValidated context
  | beforeValidate => FormInternalState.lastValidateRequested context
  end.

(** [Object.keys(FORM_HOOKS)] *)
Definition FORM_HOOK_KEYS : list FormHook :=
  [blur; change; commit; focus; init;
   afterSubmit; beforeSubmit; afterValidate; beforeValidate].

(** The second argument of [useFormHook]:
    [FormHook | readonly FormHook[]]. *)
Inductive HookOrHooks : Type :=
| OneHook (hook : FormHook)
| ManyHooks (hooks : list FormHook).

(** [[hooks].flat()] *)
Definition flat (hooks : HookOrHooks) : list FormHook :=
  match hooks with
  | OneHook hook => [hook]
  | ManyHooks hooks => hooks
  end.

(** The constant [value] of [useFormHook]:
    [[hooks].flat().map(hook => FORM_HOOKS[hook](form)).filter(isNotNil)] *)
Definition hookValues {T Ex} (form : FormInternalState.t T Ex) (hooks : HookOrHooks) :
    list (option Z) :=
  filter (λ v, is_Some v) ((λ hook, FORM_HOOKS hook form) <$> flat hooks).

(** The test [value.length > 0] under which the effect of [useFormHook]
    runs the action. *)
Definition actionDue {T Ex} (form : FormInternalState.t T Ex) (hooks : HookOrHooks) : bool :=
  bool_decide (0 < length (hookValues form hooks)).

End Hooks.

(* ===================================================================== *)
(** * The automatic submission hook *)
(* ===================================================================== *)

(** The parts of [useAutoSubmit] that are functions of what the hook
    reads: the form's [disabled], [canSubmit] and [isDirtySinceSubmitted]
    (members of the form context, which is not among the sources, taken
    as arguments), the state [next] of the hook and the clock.  The
    numbers of JavaScript are an abstract type [Num] with its addition
    [add]; nothing below depends on how it rounds. *)
Module AutoSubmit.




End AutoSubmit.

(* ===================================================================== *)
(** * Examples of the specification *)
(* ===================================================================== *)

Module Examples.

Definition num (n : Z) : JsValue := VNumber n.

(** [{a: {b: 1}}] and [{a: {b: 2}}] *)
Definition ab1 : JsValue := VObject {["a" := VObject {["b" := num 1]}]}.
Definition ab2 : JsValue := VObject {["a" := VObject {["b" := num 2]}]}.

(** [{a: x, c: y}] *)
Definition ac (x y : Z) : JsValue := VObject (<["a" := num x]> {["c" := num y]}).

(** [n => n + k] *)
Definition plus (k : Z) (v : JsValue) : JsValue :=
  match v with
  | VNumber n => VNumber (n + k)
  | _ => v
  end.

Definition err (m : string) (p : FormErrorPath) : FormError.t :=
  {| FormError.message := m; FormError.path := p; FormError.temporary := None |}.

(** [[{message: "x", path: ["a", "b"]}, {message: "y", path: ["c"]}]] *)
Definition rootErrors : FormErrors :=
  [err "x" [Key "a"; Key "b"]; err "y" [Key "c"]].

End Examples.

(* ===================================================================== *)
(** * Lemmas on paths and errors *)
(* ===================================================================== *)

Section paths.
Implicit Types (P p r : FormErrorPath) (e : FormError.t) (E : FormErrors).

Lemma stripPrefix_app P r : stripPrefix P (P ++ r) = Some r.
Proof.
  induction P as [|s P IH]; simpl; [done|].
  by rewrite decide_True.
Qed.

Lemma stripPrefix_Some P p r : stripPrefix P p = Some r ↔ p = P ++ r.
Proof.
  split; [|intros ->; apply stripPrefix_app].
  revert p. induction P as [|s P IH]; intros p; simpl.
  - by intros [= ->].
  - destruct p as [|s' p]; [done|].
    case_decide as Hs; [|done]. subst s'.
    intros Hp. by rewrite (IH _ Hp).
Qed.

(** The test of [descendErrors], [equals(p.slice(0, P.length), P)],
    holds exactly when [p] begins with [P]. *)
Lemma take_eq_prefix P p : take (length P) p = P ↔ P `prefix_of` p.
Proof.
  split.
  - intros <-. apply prefix_take.
  - intros [r ->]. apply take_app_length.
Qed.

Lemma stripPrefix_take P p :
  stripPrefix P p = if decide (take (length P) p = P) then Some (drop (length P) p) else None.
Proof.
  case_decide as H.
  - apply stripPrefix_Some.
    rewrite <- (take_drop (length P) p) at 1. by rewrite H.
  - destruct (stripPrefix P p) as [r|] eqn:Hr; [|done].
    apply stripPrefix_Some in Hr as ->. by rewrite take_app_length in H.
Qed.

Lemma descendErrors_cons e E P :
  descendErrors (e :: E) P =
    if decide (take (length P) (FormError.path e) = P)
    then FormError.with_path e (drop (length P) (FormError.path e)) :: descendErrors E P
    else descendErrors E P.
Proof.
  unfold descendErrors. rewrite filter_cons. by case_decide.
Qed.

Lemma descendErrors_refines E P : descendErrors E P = descendErrors_spec E P.
Proof.
  induction E as [|e E IH]; [done|].
  rewrite descendErrors_cons. unfold descendErrors_spec in *. simpl.
  rewrite stripPrefix_take. case_decide; simpl; by rewrite IH.
Qed.

Lemma with_path_restore e P :
  take (length P) (FormError.path e) = P →
  FormError.with_path
    (FormError.with_path e (drop (length P) (FormError.path e)))
    (P ++ drop (length P) (FormError.path e)) = e.
Proof.
  intros H. destruct e as [m p t]. unfold FormError.with_path. simpl in *.
  f_equal. rewrite <- H at 1. apply take_drop.
Qed.

Lemma ascend_descend E P :
  FormFieldImpl.ascendErrors (descendErrors E P) P =
    filter (λ e, P `prefix_of` FormError.path e) E.
Proof.
  induction E as [|e E IH]; [done|].
  rewrite descendErrors_cons, filter_cons.
  destruct (decide (take (length P) (FormError.path e) = P)) as [H|H].
  - rewrite decide_True by by apply take_eq_prefix.
    unfold FormFieldImpl.ascendErrors in *. rewrite fmap_cons, IH.
    by rewrite with_path_restore.
  - rewrite decide_False by by rewrite <- take_eq_prefix.
    done.
Qed.

Lemma ascendErrors_prefix E P e :
  e ∈ FormFieldImpl.ascendErrors E P → P `prefix_of` FormError.path e.
Proof.
  unfold FormFieldImpl.ascendErrors. intros (e' & -> & _)%list_elem_of_fmap.
  simpl. by apply prefix_app_r.
Qed.

Lemma descendErrors_nil_iff E P :
  descendErrors E P = [] ↔ ∀ e, e ∈ E → ¬ P `prefix_of` FormError.path e.
Proof.
  unfold descendErrors. split.
  - intros H%fmap_nil_inv e He Hp.
    eapply filter_nil_not_elem_of; [exact H| |exact He].
    simpl. by apply take_eq_prefix.
  - intros H. induction E as [|e E IH]; [done|].
    rewrite filter_cons_False.
    + apply IH. intros e' He'. apply H. by right.
    + rewrite take_eq_prefix. apply H. by left.
Qed.

End paths.

(* ===================================================================== *)
(** * Lemmas on lenses *)
(* ===================================================================== *)

Lemma coalesce_self (d : JsValue) : d ?? d = d.
Proof. by destruct d. Qed.

Lemma lensProp_PutGet (k : string) : PutGet (Ramda.lensProp k).
Proof.
  intros a [| | | |o]; simpl.
  all: by rewrite ?lookup_insert_eq, ?lookup_singleton_eq.
Qed.


(* ===================================================================== *)
(** * Lemmas on [doPipe] *)
(* ===================================================================== *)

Section doPipe.
Context {Eff : Type} `{!Sequence Eff} {T N : Type}.
Implicit Types (this : FormFieldImpl.t Eff T) (operator : FormField.PipeArgument T N).

Lemma doPipe_path this operator :
  FormFieldImpl.path (FormFieldImpl.doPipe this operator)
    = FormFieldImpl.path this ++ FormFieldImpl.path this.
Proof. by destruct operator. Qed.

Lemma doPipe_value this operator :
  FormFieldImpl.value (FormFieldImpl.doPipe this operator)
    = Ramda.view (stepLens operator) (FormFieldImpl.value this).
Proof. by destruct operator. Qed.

Lemma doPipe_setValue this operator (next : ValueOrFactory N N) :
  FormFieldImpl.setValue (FormFieldImpl.doPipe this operator) next
    = FormFieldImpl.setValue this (Factory (λ prev,
        Ramda.set (stepLens operator)
          (callOrGet next (Ramda.view (stepLens operator) prev))
          (FormFieldImpl.value this))).
Proof. by destruct operator. Qed.

Lemma doPipe_errors this operator :
  FormFieldImpl.errors (FormFieldImpl.doPipe this operator)
    = Some (descendErrors (default [] (FormFieldImpl.errors this)) (stepPath operator)).
Proof. by destruct operator. Qed.

Lemma doPipe_setErrors this operator (next : ValueOrFactory FormErrors FormErrors) :
  FormFieldImpl.setErrors (FormFieldImpl.doPipe this operator) next
    = FormFieldImpl.setErrors this (Factory (λ prevErrors,
        FormFieldImpl.ascendErrors
          (callOrGet next (descendErrors prevErrors (stepPath operator)))
          (stepPath operator))).
Proof. by destruct operator. Qed.

Lemma doPipe_SameTriggers this operator :
  SameTriggers this (FormFieldImpl.doPipe this operator).
Proof. by destruct operator. Qed.

End doPipe.

(* ===================================================================== *)
(** * Writes over a state cell *)
(* ===================================================================== *)

Section tracks.
Context {S : Type}.

Lemma Tracks_root (input : FieldInput.t (S → S) S) :
  FieldInput.setValue input = Store.apply →
  Tracks (FormFieldImpl.from input) id.
Proof. intros H next s. simpl. by rewrite H. Qed.

Lemma Tracks_doPipe {T N} (this : FormFieldImpl.t (S → S) T) (g : S → T)
    (operator : FormField.PipeArgument T N) :
  Tracks this g →
  PutGet (stepLens operator) →
  Tracks (FormFieldImpl.doPipe this operator) (Ramda.view (stepLens operator) ∘ g).
Proof.
  intros Hg Hl next s. rewrite doPipe_setValue. simpl.
  rewrite Hg. simpl. apply Hl.
Qed.

End tracks.

Lemma pipeAll_value {Eff} `{!Sequence Eff} (root : FormFieldImpl.t Eff JsValue) steps :
  FormFieldImpl.value (pipeAll root steps) = viewAll steps (FormFieldImpl.value root).
Proof.
  revert root. induction steps as [|step steps IH]; intros root; [done|].
  change (pipeAll root (step :: steps))
    with (pipeAll (FormFieldImpl.doPipe root step) steps).
  by rewrite IH, doPipe_value.
Qed.

Lemma Tracks_pipeAll (root : FormFieldImpl.t (JsValue → JsValue) JsValue) g steps :
  Tracks root g →
  Forall (λ step, PutGet (stepLens step)) steps →
  Tracks (pipeAll root steps) (viewAll steps ∘ g).
Proof.
  revert root g. induction steps as [|step steps IH]; intros root g Hg Hs; [done|].
  apply Forall_cons in Hs as [Hstep Hs].
  apply (IH _ _ (Tracks_doPipe _ _ _ Hg Hstep) Hs).
Qed.

(* ===================================================================== *)
(** * Writes of defined values over a state cell *)
(* ===================================================================== *)

Lemma lensProp_KeepsDefined (k : string) : KeepsDefined (Ramda.lensProp k).
Proof.
  intros a s _. split; [apply lensProp_PutGet|]. by destruct s.
Qed.

Lemma narrow_coalesce_KeepsDefined (e : JsValue) :
  KeepsDefined (FormField.narrow (λ value, value ?? e)).
Proof. intros a s Ha. simpl. unfold Ramda.identity. by destruct a. Qed.

Lemma or_KeepsDefined (e : JsValue) : KeepsDefined (FormField.or e).
Proof.
  intros a s Ha. simpl. unfold Ramda.identity, Ramda.defaultTo.
  by rewrite Ha.
Qed.

Lemma TracksDefined_root (input : FieldInput.t (JsValue → JsValue) JsValue) :
  FieldInput.setValue input = Store.apply →
  TracksDefined (FormFieldImpl.from input) id.
Proof. intros H a s _. simpl. by rewrite H. Qed.

Lemma TracksDefined_doPipe (this : FormFieldImpl.t (JsValue → JsValue) JsValue) g
    (operator : FormField.PipeArgument JsValue JsValue) :
  TracksDefined this g →
  KeepsDefined (stepLens operator) →
  TracksDefined (FormFieldImpl.doPipe this operator)
    (Ramda.view (stepLens operator) ∘ g).
Proof.
  intros Hg Hl a s Ha. rewrite doPipe_setValue. simpl.
  destruct (Hl a (FormFieldImpl.value this) Ha) as [Hread Hdefined].
  by rewrite (Hg _ s Hdefined).
Qed.

Lemma TracksDefined_pipeAll (root : FormFieldImpl.t (JsValue → JsValue) JsValue) g steps :
  TracksDefined root g →
  Forall (λ step, KeepsDefined (stepLens step)) steps →
  TracksDefined (pipeAll root steps) (viewAll steps ∘ g).
Proof.
  revert root g. induction steps as [|step steps IH]; intros root g Hg Hs; [done|].
  apply Forall_cons in Hs as [Hstep Hs].
  apply (IH _ _ (TracksDefined_doPipe _ _ _ Hg Hstep) Hs).
Qed.

(* ===================================================================== *)
(** * The properties of the specification *)
(* ===================================================================== *)

Import Examples.

(** C1, evaluated on the code.  The root holds [{a: 1, c: 2}]; the fields
    [root.prop("a")] and [root.prop("c")] each write with a functional
    updater ([n => n + 1] and [n => n + 10]).  The updater that reaches
    the root reads the written property from the state it is applied to,
    but sets it into the root value captured when the derived field was
    built, so the later update undoes the earlier one: the two orders end
    in [{a: 1, c: 12}] and [{a: 2, c: 2}], neither of which is the merged
    value [{a: 2, c: 12}]. *)
Theorem C1_sibling_updates_do_not_commute :
  let root := FormFieldImpl.from (Store.valueInput (ac 1 2)) in
  let writeA := FormFieldImpl.setValue (FormFieldImpl.doProp root "a") (Factory (plus 1)) in
  let writeC := FormFieldImpl.setValue (FormFieldImpl.doProp root "c") (Factory (plus 10)) in
  writeC (writeA (ac 1 2)) = ac 1 12 ∧
  writeA (writeC (ac 1 2)) = ac 2 2 ∧
  writeC (writeA (ac 1 2)) ≠ writeA (writeC (ac 1 2)) ∧
  writeC (writeA (ac 1 2)) ≠ ac 2 12 ∧
  writeA (writeC (ac 1 2)) ≠ ac 2 12.
Proof.
  simpl. repeat split; try (by vm_compute).
  all: vm_compute; discriminate.
Qed.

(** C2, evaluated on the code.  A composition step does not append its
    own segments: the path of the derived field is the path of the parent
    followed by the path of the parent again.  Over a root with the empty
    path, [root.prop("a").prop("b").path] is [[]], not [["a", "b"]]. *)
Theorem C2_path_repeats_parent_path :
  (∀ Eff (seq : Sequence Eff) T N
     (this : FormFieldImpl.t Eff T) (operator : FormField.PipeArgument T N),
     FormFieldImpl.path (FormFieldImpl.doPipe this operator)
       = FormFieldImpl.path this ++ FormFieldImpl.path this) ∧
  (∀ Eff (seq : Sequence Eff) value disabled setValue setErrors errors blur commit focus,
     let root := FormFieldImpl.from
       (FieldInput.mk (Eff := Eff) [] value disabled setValue setErrors errors
          blur commit focus) in
     FormFieldImpl.path (FormFieldImpl.doProp (FormFieldImpl.doProp root "a") "b") = [] ∧
     FormFieldImpl.path (FormFieldImpl.doProp (FormFieldImpl.doProp root "a") "b")
       ≠ [Key "a"; Key "b"]).
Proof.
  split.
  - intros. apply doPipe_path.
  - intros. by split.
Qed.

(** C3.  Over any root input whose value is [{a: {b: 1}}],
    [root.prop("a").prop("b").setValue(2)] calls the root input's
    [setValue] with a functional updater, one and the same for every such
    input, and that updater maps [{a: {b: 1}}] to [{a: {b: 2}}]. *)
Theorem C3_write_propagation :
  ∃ updater : JsValue → JsValue,
    (∀ Eff (seq : Sequence Eff) path disabled setValue setErrors errors blur commit focus,
       let root := FormFieldImpl.from
         (FieldInput.mk (Eff := Eff) path ab1 disabled setValue setErrors errors
            blur commit focus) in
       FormFieldImpl.setValue
         (FormFieldImpl.doProp (FormFieldImpl.doProp root "a") "b") (Value (num 2))
         = setValue (Factory updater)) ∧
    updater ab1 = ab2.
Proof.
  eexists. split.
  - intros. simpl. reflexivity.
  - by vm_compute.
Qed.

(** C4.  [descendErrors] is the filter-and-strip of the specification:
    it keeps, in order, the errors whose path begins with the given path,
    each with that prefix removed and its other members unchanged; it is
    total, and empty when no path begins with the given one.  On the root
    errors [[{x, ["a","b"]}, {y, ["c"]}]] the field [root.prop("a")] has
    errors [[{x, ["b"]}]], [root.prop("c")] has errors [[{y, []}]] and one
    self error. *)
Theorem C4_descendErrors_scoping :
  (∀ E P, descendErrors E P = descendErrors_spec E P) ∧
  (∀ E P e', e' ∈ descendErrors E P ↔
     ∃ e, e ∈ E ∧ FormError.path e = P ++ FormError.path e' ∧
          FormError.message e' = FormError.message e ∧
          FormError.temporary e' = FormError.temporary e) ∧
  (∀ E P, (∀ e, e ∈ E → ¬ P `prefix_of` FormError.path e) → descendErrors E P = []) ∧
  (∀ Eff (seq : Sequence Eff) path (value : JsValue) disabled setValue setErrors
     blur commit focus,
     let root := FormFieldImpl.from
       (FieldInput.mk (Eff := Eff) path value disabled setValue setErrors
          (Some rootErrors) blur commit focus) in
     FormFieldImpl.errors (FormFieldImpl.doProp root "a") = Some [err "x" [Key "b"]] ∧
     FormFieldImpl.errors (FormFieldImpl.doProp root "c") = Some [err "y" []] ∧
     length <$> FormFieldImpl.selfErrors (FormFieldImpl.doProp root "c") = Some 1).
Proof.
  split; [exact descendErrors_refines|].
  split; [|split; [intros E P; apply descendErrors_nil_iff|by intros]].
  intros E P e'. unfold descendErrors.
  rewrite list_elem_of_fmap. setoid_rewrite list_elem_of_filter. split.
  - intros (e & -> & Hp & He). exists e. simpl. split_and!; [done| |done..].
    rewrite <- Hp at 1. by rewrite take_drop.
  - intros (e & He & Hp & Hm & Ht). exists e. split.
    + destruct e, e'. simpl in *. unfold FormError.with_path. simpl.
      subst. by rewrite drop_app_length.
    + split; [|done]. rewrite Hp. apply take_app_length.
Qed.

Lemma C4_descendErrors_scoping_witness :
  descendErrors rootErrors [Key "d"] = [].
Proof.
  apply (proj1 (proj2 (proj2 C4_descendErrors_scoping))).
  intros e He [r Hr]. unfold rootErrors in He.
  apply elem_of_cons in He as [->|He]; [discriminate Hr|].
  apply list_elem_of_singleton in He as ->. discriminate Hr.
Defined.

(** C5.  Re-prepending [P] to every path of [descendErrors(E, P)] gives
    the sub-list of [E] of the errors whose path begins with [P], each as
    it was in [E] and in the order of [E].  It is what the derived
    [setErrors] hands to a state cell of errors when it is called with
    the identity updater. *)
Theorem C5_ascend_descend_roundtrip :
  (∀ E P, FormFieldImpl.ascendErrors (descendErrors E P) P
            = filter (λ e, P `prefix_of` FormError.path e) E) ∧
  (∀ T N (value : T) E0 (operator : FormField.PipeArgument T N) E,
     FormFieldImpl.setErrors
       (FormFieldImpl.doPipe (FormFieldImpl.from (Store.errorsInput value E0)) operator)
       (Factory id) E
       = filter (λ e, stepPath operator `prefix_of` FormError.path e) E).
Proof.
  split; [exact ascend_descend|].
  intros. rewrite doPipe_setErrors. simpl. apply ascend_descend.
Qed.

(** C6, as the code has it.  The derived [setErrors] hands its parent an
    updater that maps the parent's previous list to the new errors (the
    given list, or the given updater applied to the descended view of the
    previous list) with the step's path re-prepended, and to nothing
    else: every error of the list it returns lies under the step's
    path. *)
Theorem C6_setErrors_replaces_with_reprefixed :
  ∀ Eff (seq : Sequence Eff) T N
    (this : FormFieldImpl.t Eff T) (operator : FormField.PipeArgument T N)
    (next : ValueOrFactory FormErrors FormErrors),
    let updater := λ prevErrors,
      FormFieldImpl.ascendErrors
        (callOrGet next (descendErrors prevErrors (stepPath operator)))
        (stepPath operator) in
    FormFieldImpl.setErrors (FormFieldImpl.doPipe this operator) next
      = FormFieldImpl.setErrors this (Factory updater) ∧
    ∀ prevErrors,
      Forall (λ e, stepPath operator `prefix_of` FormError.path e) (updater prevErrors).
Proof.
  intros. split; [apply doPipe_setErrors|].
  intros prevErrors. apply Forall_forall. intros e. apply ascendErrors_prefix.
Qed.

(** C6, the claim as stated fails.  The parent holds
    [[{x, ["a","b"]}, {y, ["c"]}]]; [root.prop("a").setErrors([{z, ["b"]}])]
    leaves the parent with [[{z, ["a","b"]}]] only: the error [y], whose
    path does not begin with ["a"], is gone. *)
Lemma C6_setErrors_drops_siblings :
  let root := FormFieldImpl.from (Store.errorsInput VNull rootErrors) in
  let after :=
    FormFieldImpl.setErrors (FormFieldImpl.doProp root "a")
      (Value [err "z" [Key "b"]]) rootErrors in
  err "y" [Key "c"] ∈ rootErrors ∧
  ¬ [Key "a"] `prefix_of` FormError.path (err "y" [Key "c"]) ∧
  after = [err "z" [Key "a"; Key "b"]] ∧
  err "y" [Key "c"] ∉ after.
Proof.
  simpl. split_and!.
  - unfold rootErrors. apply elem_of_cons. right. apply list_elem_of_singleton. done.
  - intros [r Hr]. discriminate Hr.
  - done.
  - intros H. apply list_elem_of_singleton in H. discriminate H.
Qed.



(** C8, as the code has it.  A field is reached from a root over a state
    cell by composition steps whose lenses read back the values, neither
    [null] nor [undefined], written through them and write such values
    into parent values that are neither (as the lenses of [prop], for
    the names the model covers, and of [or] do; the root itself is the
    empty chain), and narrowed with
    [or(d)] for a default that is neither [null] nor [undefined].
    Writing [d] through it is a total function of the state; and once the
    update has been applied, to whatever state [s] the cell then holds,
    the field derived in the same way from the updated root value has the
    value [d].  The root value may be [undefined] before the write. *)
Theorem C8_or_default_write_read
    (steps : list (FormField.PipeArgument JsValue JsValue)) (d v0 s : JsValue)
    path disabled setErrors errors blur commit focus :
  is_nullish d = false →
  Forall (λ step, KeepsDefined (stepLens step)) steps →
  let root := λ v, FormFieldImpl.from
    (FieldInput.mk path v disabled Store.apply setErrors errors blur commit focus) in
  let field := λ v, FormFieldImpl.doOr (pipeAll (root v) steps) d in
  let s' := FormFieldImpl.setValue (field v0) (Value d) s in
  FormFieldImpl.value (field s') = d.
Proof.
  intros Hd Hsteps root field s'.
  assert (Htracks : TracksDefined (pipeAll (root v0) steps) (viewAll steps)).
  { apply (TracksDefined_pipeAll (root v0) id steps); [|done].
    by apply TracksDefined_root. }
  unfold field at 1, FormFieldImpl.doOr, FormFieldImpl.doNarrow.
  rewrite doPipe_value, pipeAll_value. simpl.
  replace (viewAll steps s') with d; [apply coalesce_self|].
  symmetry. exact (Htracks d s Hd).
Qed.

Lemma C8_or_default_write_read_witness :
  let field := λ v,
    FormFieldImpl.doOr
      (FormFieldImpl.doOr
         (FormFieldImpl.doProp (FormFieldImpl.from (Store.valueInput v)) "a") (num 5))
      (num 7) in
  FormFieldImpl.value
    (field (FormFieldImpl.setValue (field VUndefined) (Value (num 7)) VUndefined))
    = num 7.
Proof.
  apply (C8_or_default_write_read
           [FormField.WithPath (FormField.prop "a");
            FormField.Bare (FormField.narrow (λ value, value ?? num 5))]
           (num 7) VUndefined VUndefined
           [] false (λ _, id) None id id id).
  - reflexivity.
  - apply Forall_cons. split; [apply lensProp_KeepsDefined|].
    apply Forall_cons. split; [apply narrow_coalesce_KeepsDefined|apply Forall_nil_2].
Defined.

(** C8, the claim as stated fails.  The root holds [undefined]; the field
    is [root.narrow(_ => 8).or(7)].  Writing the default [7] through it
    leaves the root with [7], and the field derived in the same way from
    that root has the value [8], not [7]: the lens of [narrow] does not
    read back what is written through it. *)
Lemma C8_narrow_parent_loses_default :
  let field := λ v,
    FormFieldImpl.doOr
      (FormFieldImpl.doNarrow (FormFieldImpl.from (Store.valueInput v)) (λ _, num 8))
      (num 7) in
  let s' := FormFieldImpl.setValue (field VUndefined) (Value (num 7)) VUndefined in
  is_nullish (num 7) = false ∧
  s' = num 7 ∧
  FormFieldImpl.value (field s') = num 8 ∧
  FormFieldImpl.value (field s') ≠ num 7.
Proof. simpl. by split_and!. Qed.

(** C9.  Every composition operation hands on the parent's [blur],
    [commit] and [focus] and its [disabled] flag as they are. *)
Theorem C9_triggers_forwarded :
  ∀ Eff (seq : Sequence Eff),
    (∀ T N (this : FormFieldImpl.t Eff T) (operator : FormField.PipeArgument T N),
       SameTriggers this (FormFieldImpl.doPipe this operator)) ∧
    (∀ (this : FormFieldImpl.t Eff JsValue) key,
       SameTriggers this (FormFieldImpl.doProp this key)) ∧
    (∀ T N (this : FormFieldImpl.t Eff T) (to : T → N) (back : N → T),
       SameTriggers this (FormFieldImpl.doTransform this to back)) ∧
    (∀ T (this : FormFieldImpl.t Eff T) (to : T → T),
       SameTriggers this (FormFieldImpl.doNarrow this to)) ∧
    (∀ (this : FormFieldImpl.t Eff JsValue) defaultValue,
       SameTriggers this (FormFieldImpl.doOr this defaultValue)).
Proof.
  intros. split_and!; intros; apply doPipe_SameTriggers.
Qed.

(** C10.  Over an input without an error list, every composition
    operation gives a field whose errors are the empty list, while the
    field of that input itself has no [selfErrors] and neither errors nor
    self errors. *)
Theorem C10_missing_errors :
  ∀ Eff (seq : Sequence Eff),
    (∀ T path (value : T) disabled setValue setErrors blur commit focus,
       let parent := FormFieldImpl.from
         (FieldInput.mk (Eff := Eff) path value disabled setValue setErrors None
            blur commit focus) in
       FormFieldImpl.errors parent = None ∧
       FormFieldImpl.selfErrors parent = None ∧
       FormFieldImpl.hasErrors parent = false ∧
       FormFieldImpl.hasSelfErrors parent = false ∧
       (∀ N (operator : FormField.PipeArgument T N),
          FormFieldImpl.errors (FormFieldImpl.doPipe parent operator) = Some []) ∧
       (∀ N (to : T → N) (back : N → T),
          FormFieldImpl.errors (FormFieldImpl.doTransform parent to back) = Some []) ∧
       (∀ (to : T → T),
          FormFieldImpl.errors (FormFieldImpl.doNarrow parent to) = Some [])) ∧
    (∀ path (value : JsValue) disabled setValue setErrors blur commit focus,
       let parent := FormFieldImpl.from
         (FieldInput.mk (Eff := Eff) path value disabled setValue setErrors None
            blur commit focus) in
       (∀ key, FormFieldImpl.errors (FormFieldImpl.doProp parent key) = Some []) ∧
       (∀ defaultValue,
          FormFieldImpl.errors (FormFieldImpl.doOr parent defaultValue) = Some [])).
Proof.
  intros. split; intros; split_and!; try done.
  intros N operator. by rewrite doPipe_errors.
Qed.

(* ===================================================================== *)
(** * Further lemmas on paths and errors *)
(* ===================================================================== *)

Section more_paths.
Implicit Types (P Q p : FormErrorPath) (e : FormError.t) (E : FormErrors).

Lemma with_path_id e : FormError.with_path e (FormError.path e) = e.
Proof. by destruct e. Qed.

Lemma with_path_with_path e p q :
  FormError.with_path (FormError.with_path e p) q = FormError.with_path e q.
Proof. done. Qed.

Lemma take_app_eq P Q p :
  take (length (P ++ Q)) p = P ++ Q
  ↔ take (length P) p = P ∧ take (length Q) (drop (length P) p) = Q.
Proof.
  rewrite !take_eq_prefix. split.
  - intros [r ->]. rewrite <- !(assoc_L (++)). split.
    + by apply prefix_app_r.
    + rewrite drop_app_length. by apply prefix_app_r.
  - intros [[r ->] HQ]. rewrite drop_app_length in HQ.
    destruct HQ as [r' ->]. rewrite (assoc_L (++)). by apply prefix_app_r.
Qed.

Lemma descendErrors_nil_path E : descendErrors E [] = E.
Proof.
  induction E as [|e E IH]; [done|].
  rewrite descendErrors_cons, decide_True by done.
  simpl. by rewrite IH, with_path_id.
Qed.

Lemma descendErrors_compose E P Q :
  descendErrors (descendErrors E P) Q = descendErrors E (P ++ Q).
Proof.
  induction E as [|e E IH]; [done|].
  rewrite (descendErrors_cons e E P), (descendErrors_cons e E (P ++ Q)).
  destruct (decide (take (length P) (FormError.path e) = P)) as [HP|HP].
  - rewrite descendErrors_cons. simpl.
    destruct (decide (take (length Q) (drop (length P) (FormError.path e)) = Q))
      as [HQ|HQ].
    + rewrite decide_True by by apply take_app_eq.
      rewrite IH, with_path_with_path. simpl.
      by rewrite drop_drop, length_app.
    + rewrite decide_False; [done|]. by intros [_ ?]%take_app_eq.
  - rewrite decide_False; [done|]. by intros [? _]%take_app_eq.
Qed.

Lemma descend_ascend E P :
  descendErrors (FormFieldImpl.ascendErrors E P) P = E.
Proof.
  induction E as [|e E IH]; [done|].
  unfold FormFieldImpl.ascendErrors in *. rewrite fmap_cons, descendErrors_cons.
  simpl. rewrite decide_True by apply take_app_length.
  rewrite IH, drop_app_length, with_path_with_path. by rewrite with_path_id.
Qed.

Lemma descendErrors_app E1 E2 P :
  descendErrors (E1 ++ E2) P = descendErrors E1 P ++ descendErrors E2 P.
Proof. unfold descendErrors. by rewrite filter_app, fmap_app. Qed.

Lemma descendErrors_length E P : length (descendErrors E P) ≤ length E.
Proof. unfold descendErrors. rewrite length_fmap. apply length_filter. Qed.

Lemma descendErrors_nonempty E P :
  0 < length (descendErrors E P)
  ↔ ∃ e, e ∈ E ∧ P `prefix_of` FormError.path e.
Proof.
  split.
  - induction E as [|e E IH]; [simpl; lia|].
    rewrite descendErrors_cons. case_decide as H.
    + intros _. exists e. split; [by left|]. by apply take_eq_prefix.
    + intros (e' & He' & Hp)%IH. exists e'. split; [by right|done].
  - intros (e & He & Hp).
    destruct (descendErrors E P) eqn:HE; [|simpl; lia].
    exfalso. by eapply descendErrors_nil_iff.
Qed.

Lemma descendErrors_self E P :
  filter (λ e, length (FormError.path e) = 0) (descendErrors E P)
    = (λ e, FormError.with_path e []) <$> filter (λ e, FormError.path e = P) E.
Proof.
  induction E as [|e E IH]; [done|].
  rewrite descendErrors_cons, (filter_cons (λ e, FormError.path e = P)).
  destruct (decide (FormError.path e = P)) as [Heq|Hne].
  - rewrite decide_True by (rewrite Heq; apply firstn_all).
    rewrite filter_cons. simpl. rewrite Heq, drop_all. simpl.
    by rewrite IH.
  - case_decide as Hp; [|done].
    rewrite filter_cons. simpl. rewrite decide_False; [done|].
    intros Hlen%nil_length_inv. apply Hne.
    rewrite <- (take_drop (length P) (FormError.path e)), Hlen, Hp.
    by rewrite (right_id_L [] (++)).
Qed.

End more_paths.

Section more_doPipe.
Context {Eff : Type} `{!Sequence Eff} {T N : Type}.
Implicit Types (this : FormFieldImpl.t Eff T) (operator : FormField.PipeArgument T N).

Lemma doPipe_hasErrors this operator :
  FormFieldImpl.hasErrors (FormFieldImpl.doPipe this operator)
    = bool_decide (0 < length (descendErrors (default [] (FormFieldImpl.errors this))
                                 (stepPath operator))).
Proof. by destruct operator. Qed.

Lemma doPipe_selfErrors this operator :
  FormFieldImpl.selfErrors (FormFieldImpl.doPipe this operator)
    = Some (filter (λ e, length (FormError.path e) = 0)
              (descendErrors (default [] (FormFieldImpl.errors this))
                 (stepPath operator))).
Proof. by destruct operator. Qed.

End more_doPipe.

(* ===================================================================== *)
(** * Further properties: errors *)
(* ===================================================================== *)

(** X1.  Descending by the empty path returns the error list as it
    is. *)
Theorem X1_descendErrors_empty_path (E : FormErrors) : descendErrors E [] = E.
Proof. apply descendErrors_nil_path. Qed.

(** X2.  Descending by [P] and then by [Q] is descending by [P]
    followed by [Q]. *)
Theorem X2_descendErrors_compose (E : FormErrors) (P Q : FormErrorPath) :
  descendErrors (descendErrors E P) Q = descendErrors E (P ++ Q).
Proof. apply descendErrors_compose. Qed.

(** X3.  Descending by [P] the errors that had [P] re-prepended returns
    them as they were: all of them, in order. *)
Theorem X3_descend_after_ascend (E : FormErrors) (P : FormErrorPath) :
  descendErrors (FormFieldImpl.ascendErrors E P) P = E.
Proof. apply descend_ascend. Qed.

(** X4.  [descendErrors] works error by error: it distributes over the
    concatenation of lists, and it never returns more errors than it is
    given. *)
Theorem X4_descendErrors_app_length (E1 E2 : FormErrors) (P : FormErrorPath) :
  descendErrors (E1 ++ E2) P = descendErrors E1 P ++ descendErrors E2 P ∧
  length (descendErrors E1 P) ≤ length E1.
Proof. split; [apply descendErrors_app|apply descendErrors_length]. Qed.

(** X5.  The errors of a field two composition steps down are the
    parent's errors descended by the path of the first step followed by
    the path of the second. *)
Theorem X5_nested_errors {Eff} `{!Sequence Eff} {T N M}
    (this : FormFieldImpl.t Eff T)
    (first : FormField.PipeArgument T N) (second : FormField.PipeArgument N M) :
  FormFieldImpl.errors (FormFieldImpl.doPipe (FormFieldImpl.doPipe this first) second)
    = Some (descendErrors (default [] (FormFieldImpl.errors this))
              (stepPath first ++ stepPath second)).
Proof. rewrite !doPipe_errors. simpl. by rewrite descendErrors_compose. Qed.

(** X6.  A derived field has errors exactly when some error of its
    parent has a path that begins with the path of the step. *)
Theorem X6_derived_hasErrors {Eff} `{!Sequence Eff} {T N}
    (this : FormFieldImpl.t Eff T) (operator : FormField.PipeArgument T N) :
  FormFieldImpl.hasErrors (FormFieldImpl.doPipe this operator) = true
  ↔ ∃ e, e ∈ default [] (FormFieldImpl.errors this)
         ∧ stepPath operator `prefix_of` FormError.path e.
Proof.
  rewrite doPipe_hasErrors, bool_decide_eq_true. apply descendErrors_nonempty.
Qed.

(** X7.  The self errors of a derived field are the errors of its parent
    whose path is exactly the path of the step, each with the empty
    path. *)
Theorem X7_derived_selfErrors {Eff} `{!Sequence Eff} {T N}
    (this : FormFieldImpl.t Eff T) (operator : FormField.PipeArgument T N) :
  FormFieldImpl.selfErrors (FormFieldImpl.doPipe this operator)
    = Some ((λ e, FormError.with_path e [])
              <$> filter (λ e, FormError.path e = stepPath operator)
                    (default [] (FormFieldImpl.errors this))).
Proof. by rewrite doPipe_selfErrors, descendErrors_self. Qed.

(** X8.  The flags the constructor computes: a field has errors exactly
    when its input has an error list with an error in it, and self errors
    exactly when one of them has the empty path; so a field with self
    errors has errors. *)
Theorem X8_constructor_error_flags {Eff} `{!Sequence Eff} {T}
    (input : FieldInput.t Eff T) :
  let field := FormFieldImpl.from input in
  (FormFieldImpl.hasErrors field = true
   ↔ ∃ e, e ∈ default [] (FieldInput.errors input)) ∧
  (FormFieldImpl.hasSelfErrors field = true
   ↔ ∃ e, e ∈ default [] (FieldInput.errors input) ∧ FormError.path e = []) ∧
  (FormFieldImpl.hasSelfErrors field = true → FormFieldImpl.hasErrors field = true).
Proof.
  assert (Hnonempty : ∀ l : FormErrors, 0 < length l ↔ ∃ e, e ∈ l).
  { intros [|e l]; simpl.
    - split; [lia|]. by intros [e He%elem_of_nil].
    - split; [|lia]. intros _. exists e. by left. }
  assert (H1 : FormFieldImpl.hasErrors (FormFieldImpl.from input) = true
               ↔ ∃ e, e ∈ default [] (FieldInput.errors input)).
  { simpl. rewrite bool_decide_eq_true.
    destruct (FieldInput.errors input) as [l|]; simpl; [apply Hnonempty|].
    split; [lia|]. by intros [e He%elem_of_nil]. }
  assert (H2 : FormFieldImpl.hasSelfErrors (FormFieldImpl.from input) = true
               ↔ ∃ e, e ∈ default [] (FieldInput.errors input) ∧ FormError.path e = []).
  { simpl. rewrite bool_decide_eq_true.
    destruct (FieldInput.errors input) as [l|]; simpl.
    - rewrite Hnonempty. setoid_rewrite list_elem_of_filter.
      split; intros (e & H); exists e.
      + destruct H as [H%nil_length_inv ?]. done.
      + destruct H as [? ->]. done.
    - split; [lia|]. by intros (e & He%elem_of_nil & _). }
  simpl. split_and!; [exact H1|exact H2|].
  intros (e & He & _)%H2. apply H1. by exists e.
Qed.

Lemma X8_constructor_error_flags_witness :
  FormFieldImpl.hasErrors
    (FormFieldImpl.from (Store.errorsInput VNull [Examples.err "y" []])) = true.
Proof.
  apply (X8_constructor_error_flags
           (Store.errorsInput VNull [Examples.err "y" []])).
  reflexivity.
Defined.

(** X9.  Over a state cell of errors, after a derived field has set its
    errors the field derived by the same step from the updated errors has
    exactly the errors that were set: the given list, or the given
    updater applied to the descended view of the list the update was
    applied to. *)
Theorem X9_setErrors_then_read {T N} (value : T) (E0 s : FormErrors)
    (operator : FormField.PipeArgument T N)
    (next : ValueOrFactory FormErrors FormErrors) :
  let field := λ E,
    FormFieldImpl.doPipe (FormFieldImpl.from (Store.errorsInput value E)) operator in
  let after := FormFieldImpl.setErrors (field E0) next s in
  FormFieldImpl.errors (field after)
    = Some (callOrGet next (descendErrors s (stepPath operator))).
Proof.
  simpl. rewrite doPipe_errors, doPipe_setErrors. simpl.
  by rewrite descend_ascend.
Qed.

(* ===================================================================== *)
(** * Further properties: values *)
(* ===================================================================== *)

(** X10.  A field is reached from a root over a state cell by steps whose
    lenses read back what they write.  After a write through the field
    has been applied to the state [s], the field derived by the same
    steps from the new state has the written value: the given value, or
    the given updater applied to what the field reads in [s]. *)
Theorem X10_write_then_read
    (steps : list (FormField.PipeArgument JsValue JsValue))
    (next : ValueOrFactory JsValue JsValue) (v0 s : JsValue)
    path disabled setErrors errors blur commit focus :
  Forall (λ step, PutGet (stepLens step)) steps →
  let field := λ v,
    pipeAll (FormFieldImpl.from
      (FieldInput.mk path v disabled Store.apply setErrors errors blur commit focus))
      steps in
  let s' := FormFieldImpl.setValue (field v0) next s in
  FormFieldImpl.value (field s')
    = callOrGet next (FormFieldImpl.value (field s)).
Proof.
  intros Hsteps field s'. unfold field. rewrite !pipeAll_value. simpl.
  apply (Tracks_pipeAll _ id steps); [|done]. by apply Tracks_root.
Qed.

Lemma X10_write_then_read_witness :
  let field := λ v,
    FormFieldImpl.doProp (FormFieldImpl.from (Store.valueInput v)) "c" in
  FormFieldImpl.value
    (field (FormFieldImpl.setValue (field (Examples.ac 1 2))
              (Factory (Examples.plus 10)) (Examples.ac 5 6)))
    = Examples.num 16.
Proof.
  apply (X10_write_then_read
           [FormField.WithPath (FormField.prop "c")] (Factory (Examples.plus 10))
           (Examples.ac 1 2) (Examples.ac 5 6) [] false (λ _, id) None id id id).
  apply Forall_cons. split; [apply lensProp_PutGet|apply Forall_nil_2].
Defined.



(** X12.  The update [root.prop(a).prop(b).setValue(next)] hands to the
    state: it reads the old value of the property along [a], [b] in the
    state it is applied to, and writes the new one into the values
    captured at derivation, the root value and its property [a]. *)
Theorem X12_nested_prop_write (a b : string)
    (next : ValueOrFactory JsValue JsValue) (v0 s : JsValue)
    path disabled setErrors errors blur commit focus :
  let root := FormFieldImpl.from
    (FieldInput.mk path v0 disabled Store.apply setErrors errors blur commit focus) in
  FormFieldImpl.setValue (FormFieldImpl.doProp (FormFieldImpl.doProp root a) b) next s
    = Ramda.assoc a
        (Ramda.assoc b (callOrGet next (Ramda.prop b (Ramda.prop a s))) (Ramda.prop a v0))
        v0.
Proof. done. Qed.

(** X13.  The lens of [prop(k)], for a name [k] that is not a member of
    [Object.prototype], on any value, a record without an own property
    ["__proto__"] or not a record: a read after a write returns what was
    written, and of two writes the second wins. *)
Theorem X13_prop_lens_put_laws (k : string) (v v' s : JsValue) :
  k ∉ objectPrototypeNames →
  noOwnProto s →
  let l := FormField.operator (FormField.prop k) in
  Ramda.view l (Ramda.set l v s) = v ∧
  Ramda.set l v' (Ramda.set l v s) = Ramda.set l v' s.
Proof.
  intros _ _. simpl. split; [apply lensProp_PutGet|].
  destruct s; simpl; by rewrite ?insert_insert_eq, ?insert_singleton_eq.
Qed.

Lemma X13_prop_lens_put_laws_witness :
  let l := FormField.operator (FormField.prop "a") in
  Ramda.view l (Ramda.set l (Examples.num 3) VUndefined) = Examples.num 3 ∧
  Ramda.set l (Examples.num 4) (Ramda.set l (Examples.num 3) VUndefined)
    = Ramda.set l (Examples.num 4) VUndefined.
Proof.
  apply (X13_prop_lens_put_laws "a" (Examples.num 3) (Examples.num 4) VUndefined).
  - unfold objectPrototypeNames. rewrite !not_elem_of_cons.
    split_and!; try discriminate. apply not_elem_of_nil.
  - exact I.
Defined.

(** X14.  On an object that has neither the property [k] nor an own
    property ["__proto__"], for a name [k] that is not a member of
    [Object.prototype], writing back what the lens of [prop(k)] reads is
    not a no-op: it adds [k] with the value [undefined]. *)
Theorem X14_prop_lens_get_put_missing_key (k : string) (o : gmap string JsValue) :
  k ∉ objectPrototypeNames →
  noOwnProto (VObject o) →
  o !! k = None →
  let l := FormField.operator (FormField.prop k) in
  Ramda.set l (Ramda.view l (VObject o)) (VObject o) = VObject (<[k := VUndefined]> o) ∧
  Ramda.set l (Ramda.view l (VObject o)) (VObject o) ≠ VObject o.
Proof.
  intros _ _ Hk. simpl. rewrite Hk. simpl. split; [done|].
  intros [= Ho]. apply (f_equal (λ m, m !! k)) in Ho.
  rewrite lookup_insert_eq, Hk in Ho. discriminate Ho.
Qed.

Lemma X14_prop_lens_get_put_missing_key_witness :
  let l := FormField.operator (FormField.prop "z") in
  Ramda.set l (Ramda.view l Examples.ab1) Examples.ab1 ≠ Examples.ab1.
Proof.
  apply (X14_prop_lens_get_put_missing_key "z"
           {["a" := VObject {["b" := Examples.num 1]}]}).
  - unfold objectPrototypeNames. rewrite !not_elem_of_cons.
    split_and!; try discriminate. apply not_elem_of_nil.
  - reflexivity.
  - reflexivity.
Defined.

(** X15.  The value of [field.or(d)], for a default that is neither
    [null] nor [undefined], is never [null] or [undefined]; it is the
    parent's value whenever that is neither. *)
Theorem X15_or_value_never_nullish {Eff} `{!Sequence Eff}
    (this : FormFieldImpl.t Eff JsValue) (d : JsValue) :
  is_nullish d = false →
  is_nullish (FormFieldImpl.value (FormFieldImpl.doOr this d)) = false ∧
  (is_nullish (FormFieldImpl.value this) = false →
   FormFieldImpl.value (FormFieldImpl.doOr this d) = FormFieldImpl.value this).
Proof.
  intros Hd. unfold FormFieldImpl.doOr, FormFieldImpl.doNarrow.
  rewrite doPipe_value. simpl.
  destruct (FormFieldImpl.value this); simpl; by split.
Qed.

Lemma X15_or_value_never_nullish_witness :
  is_nullish
    (FormFieldImpl.value
       (FormFieldImpl.doOr (FormFieldImpl.from (Store.valueInput VUndefined))
          (Examples.num 0))) = false.
Proof.
  apply (X15_or_value_never_nullish
           (FormFieldImpl.from (Store.valueInput VUndefined)) (Examples.num 0)).
  reflexivity.
Defined.


(** X17.  A step without a path ([transform], [narrow], [or], a bare
    lens) keeps all the errors of its parent, a missing list becoming the
    empty one. *)
Theorem X17_pathless_steps_keep_errors {Eff} `{!Sequence Eff} :
  (∀ T N (this : FormFieldImpl.t Eff T) (l : FormField.Operator T N),
     FormFieldImpl.errors (FormFieldImpl.doPipe this (FormField.Bare l))
       = Some (default [] (FormFieldImpl.errors this))) ∧
  (∀ T N (this : FormFieldImpl.t Eff T) (to : T → N) (back : N → T),
     FormFieldImpl.errors (FormFieldImpl.doTransform this to back)
       = Some (default [] (FormFieldImpl.errors this))) ∧
  (∀ T (this : FormFieldImpl.t Eff T) (to : T → T),
     FormFieldImpl.errors (FormFieldImpl.doNarrow this to)
       = Some (default [] (FormFieldImpl.errors this))) ∧
  (∀ (this : FormFieldImpl.t Eff JsValue) (d : JsValue),
     FormFieldImpl.errors (FormFieldImpl.doOr this d)
       = Some (default [] (FormFieldImpl.errors this))).
Proof.
  split_and!; intros;
    unfold FormFieldImpl.doOr, FormFieldImpl.doNarrow, FormFieldImpl.doTransform;
    by rewrite doPipe_errors, descendErrors_nil_path.
Qed.

(** X18.  [toggle] of a derived field is [toggle] of the field it was
    derived from, and its [setValueAndCommit] is its own write followed by
    the [commit] of the input at the root of the derivation. *)
Theorem X18_toggle_forwarded {Eff} `{!Sequence Eff} {T N}
    (input : FieldInput.t Eff T) (operator : FormField.PipeArgument T N) :
  let parent := FormFieldImpl.from input in
  let derived := FormFieldImpl.doPipe parent operator in
  (∀ status, FormFieldImpl.toggle derived status = FormFieldImpl.toggle parent status) ∧
  (∀ value, FormFieldImpl.setValueAndCommit derived value
            = andThen (FormFieldImpl.setValue derived (Value value))
                      (FieldInput.commit input)).
Proof. destruct operator; (split; [by intros []|done]). Qed.

(** X19.  Along a chain of composition steps the path doubles at every
    step, whatever the steps are; over a root with the empty path every
    derived field has the empty path. *)
Theorem X19_path_along_chain {Eff} `{!Sequence Eff}
    (steps : list (FormField.PipeArgument JsValue JsValue)) :
  (∀ this : FormFieldImpl.t Eff JsValue,
     length (FormFieldImpl.path (pipeAll this steps))
       = length (FormFieldImpl.path this) * 2 ^ length steps) ∧
  (∀ value disabled setValue setErrors errors blur commit focus,
     FormFieldImpl.path
       (pipeAll (FormFieldImpl.from
          (FieldInput.mk (Eff := Eff) [] value disabled setValue setErrors errors
             blur commit focus))
          steps) = []).
Proof.
  assert (Hlen : ∀ this : FormFieldImpl.t Eff JsValue,
            length (FormFieldImpl.path (pipeAll this steps))
              = length (FormFieldImpl.path this) * 2 ^ length steps).
  { induction steps as [|step steps IH]; intros this; [simpl; lia|].
    change (pipeAll this (step :: steps))
      with (pipeAll (FormFieldImpl.doPipe this step) steps).
    rewrite IH, doPipe_path, length_app. simpl. lia. }
  split; [exact Hlen|].
  intros. apply nil_length_inv. by rewrite Hlen.
Qed.

(* ===================================================================== *)
(** * Further properties: the form state *)
(* ===================================================================== *)

Lemma someNotTemporary_false (errors : FormErrors) :
  someNotTemporary errors = false
  ↔ ∀ e, e ∈ errors → FormError.temporary e = Some true.
Proof.
  unfold someNotTemporary. induction errors as [|e errors IH]; simpl.
  - split; [|done]. by intros _ e He%elem_of_nil.
  - rewrite orb_false_iff, IH, bool_decide_eq_false. split.
    + intros [He H] e' He'. apply elem_of_cons in He' as [->|He']; [|by apply H].
      destruct (decide (FormError.temporary e = Some true)) as [|Hn]; [done|].
      by destruct He.
    + intros H. split; [|intros e' He'; apply H; by right].
      intros Hne. apply Hne, H. by left.
Qed.

Lemma someNotTemporary_nil_length (errors : FormErrors) :
  length errors = 0 → someNotTemporary errors = false.
Proof. by intros ->%nil_length_inv. Qed.

(** X20.  When one of [isValid] and [isInvalid] is defined so is the
    other, and they are opposite; both are undefined exactly when the
    last validation is not later than the last change or there is no
    error list. *)
Theorem X20_valid_invalid_opposite {T Ex} (state : FormInternalState.t T Ex) :
  State.isInvalid state = negb <$> State.isValid state ∧
  (State.isValid state = None
   ↔ State.isValidationCurrent state = false ∨ FormInternalState.errors state = None).
Proof.
  unfold State.isInvalid, State.isValid.
  destruct (State.isValidationCurrent state), (FormInternalState.errors state);
    simpl; split; try done; split; try done; try (by left); try (by right).
  by intros [?|?].
Qed.

(** X21.  The form can be submitted exactly when every error it holds is
    marked temporary; in particular when it holds no error list. *)
Theorem X21_canSubmit_iff {T Ex} (state : FormInternalState.t T Ex) :
  State.canSubmit state = true
  ↔ ∀ e, e ∈ default [] (FormInternalState.errors state)
         → FormError.temporary e = Some true.
Proof.
  unfold State.canSubmit. rewrite negb_true_iff. apply someNotTemporary_false.
Qed.

(** X22.  A form known to be valid can be submitted. *)
Theorem X22_valid_can_submit {T Ex} (state : FormInternalState.t T Ex) :
  State.isValid state = Some true → State.canSubmit state = true.
Proof.
  unfold State.isValid, State.canSubmit.
  destruct (negb (State.isValidationCurrent state)); [done|].
  destruct (FormInternalState.errors state) as [errors|]; [|done].
  intros [= Hlen%bool_decide_eq_true]. simpl.
  by rewrite someNotTemporary_nil_length.
Qed.

Lemma X22_valid_can_submit_witness :
  State.canSubmit
    (FormInternalState.mk (Ex := JsValue) VNull VNull (Some []) None 0 None 0
       None (Some 1%Z) None None None (Some 2%Z) None false None 0 false) = true.
Proof.
  apply (X22_valid_can_submit
    (FormInternalState.mk (Ex := JsValue) VNull VNull (Some []) None 0 None 0
       None (Some 1%Z) None None None (Some 2%Z) None false None 0 false)).
  reflexivity.
Defined.

(** X23.  A form is never both focused and blurred; it is neither when
    the two time stamps are equal, as they are when it was never focused
    nor blurred. *)
Theorem X23_focus_blur_exclusive {T Ex} (state : FormInternalState.t T Ex) :
  State.isFocused state && State.isBlurred state = false ∧
  (getTimeOr0 (FormInternalState.lastFocused state)
     = getTimeOr0 (FormInternalState.lastBlurred state)
   → State.isFocused state = false ∧ State.isBlurred state = false).
Proof.
  unfold State.isFocused, State.isBlurred. split.
  - apply andb_false_iff.
    destruct (decide (getTimeOr0 (FormInternalState.lastBlurred state)
                      < getTimeOr0 (FormInternalState.lastFocused state))%Z).
    + right. apply bool_decide_eq_false. lia.
    + left. by apply bool_decide_eq_false.
  - intros ->. split; apply bool_decide_eq_false; lia.
Qed.

Lemma X23_focus_blur_exclusive_witness :
  State.isFocused (State.initialFormState (Ex := JsValue) 5 VNull) = false
  ∧ State.isBlurred (State.initialFormState (Ex := JsValue) 5 VNull) = false.
Proof.
  apply (X23_focus_blur_exclusive (State.initialFormState (Ex := JsValue) 5 VNull)).
  reflexivity.
Defined.

(** X24.  A freshly initialised form holds the initial value twice, can
    be submitted, is neither known valid nor known invalid, and is
    neither validating, submitted, validated, focused nor blurred. *)
Theorem X24_initial_state_flags {T Ex} (now : Z) (initialValue : T) :
  let state := State.initialFormState (Ex := Ex) now initialValue in
  FormInternalState.value state = FormInternalState.initializedValue state ∧
  State.canSubmit state = true ∧
  State.isValid state = None ∧
  State.isInvalid state = None ∧
  State.isValidating state = false ∧
  State.hasBeenSubmitted state = false ∧
  State.hasBeenValidated state = false ∧
  State.isFocused state = false ∧
  State.isBlurred state = false.
Proof. by split_and!. Qed.

(** X25.  The two copies of [state.ts] agree on [canSubmit]; and what
    the one with the validation time stamps reports as valid or invalid,
    the other reports the same. *)
Theorem X25_state_copies_agree {T Ex} (state : FormInternalState.t T Ex) :
  StatePart001.canSubmit state = State.canSubmit state ∧
  (∀ b, State.isValid state = Some b → StatePart001.isValid state = Some b) ∧
  (∀ b, State.isInvalid state = Some b → StatePart001.isInvalid state = Some b).
Proof.
  unfold StatePart001.canSubmit, State.canSubmit, State.isValid, State.isInvalid,
    StatePart001.isValid, StatePart001.isInvalid.
  destruct (FormInternalState.errors state), (negb (State.isValidationCurrent state));
    by split_and!.
Qed.

Lemma X25_state_copies_agree_witness :
  StatePart001.isValid
    (FormInternalState.mk (Ex := JsValue) VNull VNull (Some []) None 0 None 0
       None (Some 1%Z) None None None (Some 2%Z) None false None 0 false) = Some true.
Proof.
  apply (X25_state_copies_agree
    (FormInternalState.mk (Ex := JsValue) VNull VNull (Some []) None 0 None 0
       None (Some 1%Z) None None None (Some 2%Z) None false None 0 false)).
  reflexivity.
Defined.

(* ===================================================================== *)
(** * Further properties: the form hooks *)
(* ===================================================================== *)

Lemma actionDue_iff {T Ex} (form : FormInternalState.t T Ex)
    (hooks : Hooks.HookOrHooks) :
  Hooks.actionDue form hooks = true
  ↔ ∃ hook, hook ∈ Hooks.flat hooks ∧ is_Some (Hooks.FORM_HOOKS hook form).
Proof.
  unfold Hooks.actionDue, Hooks.hookValues. rewrite bool_decide_eq_true. split.
  - destruct (filter _ _) as [|v vs] eqn:Hf; [simpl; lia|]. intros _.
    assert (Hv : v ∈ v :: vs) by by left. rewrite <- Hf in Hv.
    apply list_elem_of_filter in Hv as [Hsome Hv].
    apply list_elem_of_fmap in Hv as (hook & -> & Hhook). by exists hook.
  - intros (hook & Hhook & Hsome).
    assert (Hv : Hooks.FORM_HOOKS hook form
                 ∈ filter (λ v, is_Some v)
                     ((λ hook, Hooks.FORM_HOOKS hook form) <$> Hooks.flat hooks)).
    { apply list_elem_of_filter. split; [done|].
      apply list_elem_of_fmap. by exists hook. }
    destruct (filter _ _); [by apply elem_of_nil in Hv|simpl; lia].
Qed.

(** X26.  The action of [useFormHook] is due exactly when one of the
    hooks it is given has a time stamp in the form. *)
Theorem X26_actionDue_iff {T Ex} (form : FormInternalState.t T Ex)
    (hooks : Hooks.HookOrHooks) :
  Hooks.actionDue form hooks = true
  ↔ ∃ hook, hook ∈ Hooks.flat hooks ∧ is_Some (Hooks.FORM_HOOKS hook form).
Proof. apply actionDue_iff. Qed.

(** X27.  On a freshly initialised form the only hook with a time stamp
    is [init]: the action is due exactly when [init] is among the hooks
    given. *)
Theorem X27_initial_only_init_due {T Ex} (now : Z) (initialValue : T)
    (hooks : Hooks.HookOrHooks) :
  Hooks.actionDue (State.initialFormState (Ex := Ex) now initialValue) hooks = true
  ↔ Hooks.init ∈ Hooks.flat hooks.
Proof.
  rewrite actionDue_iff. split.
  - intros (hook & Hhook & Hsome).
    destruct hook; simpl in Hsome; first [done | by destruct Hsome as [? [=]]].
  - intros Hinit. exists Hooks.init. split; [done|]. by eexists.
Qed.

(* ===================================================================== *)
(** * Further properties: automatic submission *)
(* ===================================================================== *)


